(** * medcube-poc-clone-backend: the file-context resolver of [src/index.js]

    A shallow embedding of the [/upload] request handler and of the helper
    functions it calls, followed by the properties of the handler.

    Conventions of the embedding.
    - A JavaScript string is a [string] of one-byte characters.  The case
      mapping [toLowerCase], the whitespace set of [trim] and the line
      terminators excluded by the regular expression's [.] are the ASCII
      ones; bytes above 127 are letters of neither case and not white space.
    - [null] and [undefined] are both the [None] of an [option]: the program
      only ever tests such values for truthiness.
    - The three module-level variables [fileCache], [activeFile] and
      [compareMode] form the record [state], threaded through a monad [M]
      that also carries the early [return res.status(400)...] of the handler,
      thrown exceptions, and the log of calls made to the completion service.
    - The file system, the PDF parser and the completion service are the
      fields of a record [world]; each may fail, which in the program is an
      exception caught by the handler's [catch]. *)

From Stdlib Require Import String Ascii List Bool Arith Lia.
Import ListNotations.
Local Open Scope list_scope.
Local Open Scope string_scope.
Local Open Scope nat_scope.

Set Implicit Arguments.

(** ** JavaScript string operations *)

Module Js.

(** The character [\n] of the template literals. *)
Definition nl : string := String (ascii_of_nat 10) EmptyString.

Definition isUpper (c : ascii) : bool :=
  (65 <=? nat_of_ascii c) && (nat_of_ascii c <=? 90).

Definition isLower (c : ascii) : bool :=
  (97 <=? nat_of_ascii c) && (nat_of_ascii c <=? 122).

Definition lowerChar (c : ascii) : ascii :=
  if isUpper c then ascii_of_nat (nat_of_ascii c + 32) else c.

Definition upperChar (c : ascii) : ascii :=
  if isLower c then ascii_of_nat (nat_of_ascii c - 32) else c.

(** [String.prototype.toLowerCase] *)
Fixpoint toLowerCase (s : string) : string :=
  match s with
  | EmptyString => EmptyString
  | String c s' => String (lowerChar c) (toLowerCase s')
  end.

(** [sub] is a prefix of [s]. *)
Fixpoint startsWith (s sub : string) {struct sub} : bool :=
  match sub, s with
  | EmptyString, _ => true
  | String _ _, EmptyString => false
  | String a sub', String b s' => Ascii.eqb a b && startsWith s' sub'
  end.

(** [String.prototype.includes]: [sub] occurs in [s] at some position. *)
Fixpoint includes (s sub : string) : bool :=
  startsWith s sub ||
  match s with
  | EmptyString => false
  | String _ s' => includes s' sub
  end.

(** White space and line terminators stripped by [trim]. *)
Definition isSpace (c : ascii) : bool :=
  let n := nat_of_ascii c in
  (n =? 32) || ((9 <=? n) && (n <=? 13)).

Fixpoint trimStart (s : string) : string :=
  match s with
  | EmptyString => EmptyString
  | String c s' => if isSpace c then trimStart s' else s
  end.

Fixpoint trimEnd (s : string) : string :=
  match s with
  | EmptyString => EmptyString
  | String c s' =>
      match trimEnd s' with
      | EmptyString => if isSpace c then EmptyString else String c EmptyString
      | t => String c t
      end
  end.

(** [String.prototype.trim] *)
Definition trim (s : string) : string := trimEnd (trimStart s).

(** [s.substring(0, n)] *)
Definition substring0 (n : nat) (s : string) : string := substring 0 n s.

(** Truthiness of a value that is an object or [undefined]. *)
Definition present {A : Type} (o : option A) : bool :=
  match o with Some _ => true | None => false end.

(** Truthiness of a string value: every string but the empty one. *)
Definition truthy (s : string) : bool :=
  match s with EmptyString => false | String _ _ => true end.

End Js.

(** ** A backtracking matcher for the regular expressions of the program

    The matcher follows the continuation semantics of ECMAScript: a pattern is
    run against the rest of the input with the continuation of the whole
    match, alternatives are tried left to right, a greedy quantifier tries
    the longer match first and a lazy one the shorter.  Repetition is
    provided for a single-character atom, the only kind the program uses. *)

Module Regex.

Inductive re : Type :=
| Eps                                      (* the empty pattern *)
| Chr (c : ascii)                          (* a pattern character *)
| Dot                                      (* [.] *)
| Seq (r1 r2 : re)
| Alt (r1 r2 : re)                         (* [r1|r2] *)
| Opt (r : re)                             (* [r?], greedy *)
| Plus (lazy : bool) (r : re)              (* [r+] and [r+?], [r] one character wide *)
| Grp (n : nat) (r : re).                  (* capture group number [n] *)

(** Captures, most recent first. *)
Definition caps := list (nat * string).

Fixpoint group (n : nat) (c : caps) : option string :=
  match c with
  | [] => None
  | (m, v) :: c' => if Nat.eqb n m then Some v else group n c'
  end.

(** Line terminators, which [.] does not match. *)
Definition isLineTerminator (c : ascii) : bool :=
  (nat_of_ascii c =? 10) || (nat_of_ascii c =? 13).

(** Canonicalize of the [i] flag. *)
Definition canonicalize (c : ascii) : ascii := Js.upperChar c.

(** One-character atoms: does the atom accept [c]? *)
Fixpoint accepts (r : re) (c : ascii) : bool :=
  match r with
  | Chr a => Ascii.eqb (canonicalize a) (canonicalize c)
  | Dot => negb (isLineTerminator c)
  | Alt r1 r2 => accepts r1 c || accepts r2 c
  | Grp _ r => accepts r c
  | _ => false
  end.

(** The part of [s] consumed when [rest] is what remains of it. *)
Definition consumed (s rest : string) : string :=
  substring 0 (String.length s - String.length rest) s.

Definition cont := string -> caps -> option caps.

(** [r+]: one character, then as many more as possible before [k]. *)
Fixpoint plusGreedy (r : re) (k : cont) (s : string) (c : caps) : option caps :=
  match s with
  | EmptyString => None
  | String a s' =>
      if accepts r a then
        match plusGreedy r k s' c with
        | Some res => Some res
        | None => k s' c
        end
      else None
  end.

(** [r+?]: one character, then as few more as [k] allows. *)
Fixpoint plusLazy (r : re) (k : cont) (s : string) (c : caps) : option caps :=
  match s with
  | EmptyString => None
  | String a s' =>
      if accepts r a then
        match k s' c with
        | Some res => Some res
        | None => plusLazy r k s' c
        end
      else None
  end.

Fixpoint run (r : re) (k : cont) (s : string) (c : caps) : option caps :=
  match r with
  | Eps => k s c
  | Chr _ | Dot =>
      match s with
      | EmptyString => None
      | String a s' => if accepts r a then k s' c else None
      end
  | Seq r1 r2 => run r1 (fun s' c' => run r2 k s' c') s c
  | Alt r1 r2 =>
      match run r1 k s c with
      | Some res => Some res
      | None => run r2 k s c
      end
  | Opt r1 =>
      match run r1 k s c with
      | Some res => Some res
      | None => k s c
      end
  | Plus lazy r1 => if lazy then plusLazy r1 k s c else plusGreedy r1 k s c
  | Grp n r1 => run r1 (fun s' c' => k s' ((n, consumed s s') :: c')) s c
  end.

(** [RegExp.prototype.exec] without the [g] flag: the match starting at the
    leftmost position that has one. *)
Fixpoint exec (r : re) (s : string) : option caps :=
  match run r (fun _ c => Some c) s [] with
  | Some res => Some res
  | None =>
      match s with
      | EmptyString => None
      | String _ s' => exec r s'
      end
  end.

(** A run of pattern characters. *)
Fixpoint lit (s : string) : re :=
  match s with
  | EmptyString => Eps
  | String a s' => Seq (Chr a) (lit s')
  end.

(** *** Predicates on matches *)

(** [c'] still has every group that [c] has. *)
Definition keeps (c c' : caps) : Prop :=
  forall n, group n c <> None -> group n c' <> None.

(** A successful match went through its continuation. *)
Definition reaches (k : cont) (c : caps) (res : caps) (P : caps -> Prop) : Prop :=
  exists s' c', k s' c' = Some res /\ keeps c c' /\ P c'.

(** Every successful match of [r] has set group [n]. *)
Definition sets (n : nat) (r : re) : Prop :=
  forall (k : cont) (s : string) (c res : caps),
    run r k s c = Some res -> reaches k c res (fun c' => group n c' <> None).

(** Two strings that differ in the case of letters only. *)
Definition sameCase (s s' : string) : Prop := Js.toLowerCase s = Js.toLowerCase s'.

Definition lowerCaps (c : caps) : caps :=
  map (fun p => (fst p, Js.toLowerCase (snd p))) c.

(** Two results that differ in the case of the captured letters only. *)
Definition sameResult (o o' : option caps) : Prop :=
  option_map lowerCaps o = option_map lowerCaps o'.

Definition sameCont (k k' : cont) : Prop :=
  forall s s' c c', sameCase s s' -> lowerCaps c = lowerCaps c' ->
    sameResult (k s c) (k' s' c').

End Regex.

(** ** Data of the program *)

(** An element of [fileCache]: [{ context: fileContext, content: fileContent }]. *)
Record cachedFile : Type := CachedFile {
  context : string;      (* the topic, as returned by [determineFileContext] *)
  content : string       (* the text of the uploaded file *)
}.

(** The module-level variables. *)
Record state : Type := State {
  fileCache : list cachedFile;
  activeFile : option cachedFile;
  compareMode : bool
}.

(** [let fileCache = []; let activeFile = null; let compareMode = false;] *)
Definition initial : state :=
  {| fileCache := []; activeFile := None; compareMode := false |}.

(** [req.file], as the upload middleware delivers it. *)
Record upload : Type := Upload {
  mimetype : string;
  path : string
}.

(** The request: [req.body.question] and [req.file]; either may be absent.
    [None] also stands for a question that is not a string (a number, an
    array, an object, [null]): [question.match] throws for each of them as
    it does for [undefined]. *)
Record request : Type := Request {
  question : option string;
  file : option upload
}.

Inductive role : Type := system | user.

Definition message : Type := (role * string)%type.

(** The two places that call [openai.chat.completions.create]. *)
Inductive call : Type :=
| ContextRequest (messages : list message)   (* in [determineFileContext] *)
| AnswerRequest (messages : list message).   (* at the end of the handler *)

Inductive json : Type :=
| Answer (answer : string)                   (* [{ answer: ... }] *)
| Error (error : string).                    (* [{ error: ... }] *)

Record response : Type := Response {
  status : nat;
  body : json
}.

(** The collaborators of the handler.  [None] is a thrown exception. *)
Record world : Type := World {
  readFileSync : string -> option string;    (* [fs.readFileSync(path, 'utf8')] *)
  pdfText : string -> option string;         (* [pdfParse(fs.readFileSync(path))].text *)
  create : list message -> option string     (* [...create(...)].choices[0].message.content *)
}.

(** ** The monad of the handler *)

Inductive outcome (A : Type) : Type :=
| Value (a : A)                 (* normal completion *)
| Return (r : response)         (* [return res.status(...).json(...)] *)
| Throw.                        (* an exception, on its way to [catch] *)

Arguments Value {A} a.
Arguments Return {A} r.
Arguments Throw {A}.

Definition M (A : Type) : Type := state -> outcome A * state * list call.

Definition ret {A : Type} (a : A) : M A := fun st => (Value a, st, []).

Definition bind {A B : Type} (m : M A) (f : A -> M B) : M B :=
  fun st =>
    match m st with
    | (Value a, st1, l1) =>
        match f a st1 with
        | (o, st2, l2) => (o, st2, (l1 ++ l2)%list)
        end
    | (Return r, st1, l1) => (Return r, st1, l1)
    | (Throw, st1, l1) => (Throw, st1, l1)
    end.

Notation "x <- m ;; k" := (bind m (fun x => k))
  (at level 61, m at next level, right associativity).
Notation "m ;; k" := (bind m (fun _ => k))
  (at level 61, right associativity).

Definition get : M state := fun st => (Value st, st, []).
Definition modify (f : state -> state) : M unit := fun st => (Value tt, f st, []).
Definition throw {A : Type} : M A := fun st => (Throw, st, []).
Definition respond {A : Type} (r : response) : M A := fun st => (Return r, st, []).

(** A value that may be an exception. *)
Definition lift {A : Type} (o : option A) : M A :=
  match o with
  | Some a => ret a
  | None => throw
  end.

(** A call of the completion service from call site [site]. *)
Definition complete (site : list message -> call) (w : world)
    (messages : list message) : M string :=
  fun st =>
    match create w messages with
    | Some reply => (Value reply, st, [site messages])
    | None => (Throw, st, [site messages])
    end.

(** ** The functions of [src/index.js] *)

(** [/compare (the )?file (about|with) (.+?) (and|with) (the )?file (about|with) (.+)/i] *)
Definition regex : Regex.re :=
  let sp := Regex.Chr " " in
  let the := Regex.lit "the " in
  let aboutWith := Regex.Alt (Regex.lit "about") (Regex.lit "with") in
  let andWith := Regex.Alt (Regex.lit "and") (Regex.lit "with") in
  fold_right Regex.Seq Regex.Eps
    [ Regex.lit "compare ";
      Regex.Opt (Regex.Grp 1 the); Regex.lit "file "; Regex.Grp 2 aboutWith; sp;
      Regex.Grp 3 (Regex.Plus true Regex.Dot); sp;
      Regex.Grp 4 andWith; sp;
      Regex.Opt (Regex.Grp 5 the); Regex.lit "file "; Regex.Grp 6 aboutWith; sp;
      Regex.Grp 7 (Regex.Plus false Regex.Dot) ].

(** [extractFileTopics(question)], for a question that is a string.  The
    last branch is the [TypeError] of [undefined.toLowerCase()]; it is dead
    code, see [extractFileTopics_groups]. *)
Definition extractFileTopics (question : string) : option (string * string) :=
  match Regex.exec regex question with
  | Some m =>
      match Regex.group 3 m, Regex.group 7 m with
      | Some m3, Some m7 => Some (Js.toLowerCase m3, Js.toLowerCase m7)
      | _, _ => None
      end
  | None => None
  end.

(** The messages of [determineFileContext]. *)
Definition contextRequest (fileContent : string) : list message :=
  [ (system, "You are a helpful assistant who categorizes files based on their content.");
    (user, "Can you briefly describe the topic of this content: "
             ++ Js.substring0 1000 fileContent) ].

(** [determineFileContext(fileContent)] *)
Definition determineFileContext (w : world) (fileContent : string) : M string :=
  reply <- complete ContextRequest w (contextRequest fileContent) ;;
  let topic := Js.trim reply in
  ret (Js.toLowerCase topic).

(** Lines 77 and 78: [fileCache.push(...)], then
    [activeFile = fileCache[fileCache.length - 1]]. *)
Definition ingest (f : cachedFile) (st : state) : state :=
  let cache := (fileCache st ++ [f])%list in
  {| fileCache := cache;
     activeFile := nth_error cache (length cache - 1);
     compareMode := compareMode st |}.

(** Lines 65 to 71: the text of the uploaded file. *)
Definition readUpload (w : world) (f : upload) : option string :=
  if String.eqb (mimetype f) "application/pdf"
  then pdfText w (path f)
  else readFileSync w (path f).

(** Lines 63 to 79: the [if (file) { ... }] block. *)
Definition uploadStep (w : world) (file : option upload) : M string :=
  match file with
  | Some f =>
      fileContent <- lift (readUpload w f) ;;
      fileContext <- determineFileContext w fileContent ;;
      modify (ingest {| context := fileContext; content := fileContent |}) ;;
      ret fileContent
  | None => ret ""
  end.

(** [question && question.toLowerCase().includes(phrase)] *)
Definition mentions (question phrase : string) : bool :=
  Js.truthy question && Js.includes (Js.toLowerCase question) phrase.

(** [fileCache.find(file => file.context.includes(topic))] *)
Definition findFile (topic : string) (cache : list cachedFile) : option cachedFile :=
  find (fun f => Js.includes (context f) topic) cache.

(** The template literal of line 90. *)
Definition comparisonText (foundFile1 foundFile2 : cachedFile) : string :=
  "Comparison between files about " ++ context foundFile1 ++ " and "
    ++ context foundFile2 ++ ":" ++ Js.nl ++ Js.nl
    ++ "File 1 (" ++ context foundFile1 ++ "):" ++ Js.nl ++ content foundFile1
    ++ Js.nl ++ Js.nl
    ++ "File 2 (" ++ context foundFile2 ++ "):" ++ Js.nl ++ content foundFile2.

(** The template literal of line 114. *)
Definition bothFilesText (firstFileContent secondFileContent : string) : string :=
  "Both Files:" ++ Js.nl ++ Js.nl ++ "First File:" ++ Js.nl ++ firstFileContent
    ++ Js.nl ++ Js.nl ++ "Second File:" ++ Js.nl ++ secondFileContent.

(** The template literal of line 119. *)
Definition generalQuestionText (question : string) : string :=
  "General Question:" ++ Js.nl ++ Js.nl ++ question.

(** The response of line 92. *)
Definition comparisonUnavailable : response :=
  {| status := 400; body := Error "One or both files are not available for comparison." |}.

(** The response of line 142. *)
Definition processingFailure : response :=
  {| status := 500; body := Error "Error processing the request" |}.

(** Lines 96 to 108: the switch phrases, as a function of the state. *)
Definition switchFiles (question : string) (st : state) : state :=
  let firstFile := nth_error (fileCache st) 0 in
  let secondFile := nth_error (fileCache st) 1 in
  if mentions question "first file" then
    {| fileCache := fileCache st; activeFile := firstFile; compareMode := false |}
  else if mentions question "second file" then
    {| fileCache := fileCache st; activeFile := secondFile; compareMode := false |}
  else if mentions question "both files" then
    {| fileCache := fileCache st; activeFile := activeFile st; compareMode := true |}
  else st.

(** Lines 111 to 124: the content for the current mode.  [file] is the
    truthiness of [req.file]. *)
Definition currentContent (question : string) (file : bool) : M string :=
  st <- get ;;
  if compareMode st && (2 <=? length (fileCache st)) then
    first <- lift (nth_error (fileCache st) 0) ;;
    second <- lift (nth_error (fileCache st) 1) ;;
    ret (bothFilesText (content first) (content second))
  else
    match activeFile st with
    | Some active => ret (content active)
    | None =>
        if negb file && (length (fileCache st) =? 0) then
          ret (generalQuestionText question)
        else
          latestFile <- lift (nth_error (fileCache st) (length (fileCache st) - 1)) ;;
          ret (content latestFile)
    end.

(** Lines 82 to 125: from the question to the text sent as file content.
    An absent question throws at [question.match]. *)
Definition resolveContext (question : option string) (file : bool) : M string :=
  match question with
  | None => throw
  | Some q =>
      match extractFileTopics q with
      | Some (topic1, topic2) =>
          st <- get ;;
          match findFile topic1 (fileCache st), findFile topic2 (fileCache st) with
          | Some foundFile1, Some foundFile2 => ret (comparisonText foundFile1 foundFile2)
          | _, _ => respond comparisonUnavailable
          end
      | None =>
          modify (switchFiles q) ;;
          currentContent q file
      end
  end.

(** [`${question}`] *)
Definition show (question : option string) : string :=
  match question with
  | Some q => q
  | None => "undefined"
  end.

(** The messages of line 127. *)
Definition answerRequest (fileContent : string) (question : option string) : list message :=
  [ (system, "You are a helpful assistant that answers questions based on one or more files or general queries.");
    (user, "File Content: " ++ fileContent);
    (user, "Question: " ++ show question) ].

(** The body of the [try] block. *)
Definition tryBlock (w : world) (req : request) : M response :=
  uploadStep w (file req) ;;
  fileContent <- resolveContext (question req) (Js.present (file req)) ;;
  assistantMessage <- complete AnswerRequest w (answerRequest fileContent (question req)) ;;
  ret {| status := 200; body := Answer assistantMessage |}.

(** [app.post('/upload', ...)]: the response, the state the request leaves
    behind and the calls it made. *)
Definition handler (w : world) (req : request) (st : state)
    : response * state * list call :=
  match tryBlock w req st with
  | (Value r, st', calls) => (r, st', calls)
  | (Return r, st', calls) => (r, st', calls)
  | (Throw, st', calls) => (processingFailure, st', calls)
  end.

(** A sequence of requests served one after the other. *)
Fixpoint serve (w : world) (reqs : list request) (st : state) : list response * state :=
  match reqs with
  | [] => ([], st)
  | req :: reqs' =>
      match handler w req st with
      | (r, st1, _) =>
          match serve w reqs' st1 with
          | (rs, st2) => (r :: rs, st2)
          end
      end
  end.


(** The invariant of the state: the active file, when there is one, is an
    element of the cache. *)
Definition activeStored (st : state) : Prop :=
  forall f, activeFile st = Some f -> In f (fileCache st).

(** ** Sample data *)

Module Sample.

Definition medicine : cachedFile :=
  {| context := "artificial intelligence in medicine";
     content := "Models read scans." |}.

Definition ledger : cachedFile :=
  {| context := "introduction to blockchain technology";
     content := "Blocks are chained by hashes." |}.

Definition weather : cachedFile :=
  {| context := "weather forecasting"; content := "Fronts move east." |}.

(** A state reached by uploading two files. *)
Definition two : state :=
  {| fileCache := [medicine; ledger]; activeFile := Some ledger; compareMode := false |}.

(** A state reached by uploading three files and asking about both files. *)
Definition comparing : state :=
  {| fileCache := [medicine; ledger; weather];
     activeFile := Some weather;
     compareMode := true |}.

(** A service that calls every file a weather report and answers every
    question the same way. *)
Definition service : world :=
  {| readFileSync := fun p => Some ("Fronts move east.");
     pdfText := fun p => Some ("Fronts move east.");
     create := fun messages =>
       match messages with
       | [_; _] => Some "  Weather Forecasting "
       | _ => Some "I see."
       end |}.

Definition report : upload := {| mimetype := "text/plain"; path := "uploads/1f3a" |}.

End Sample.

(** ** Further notions used in the properties *)

(** [r] takes a character or more of the input whenever it matches. *)
Fixpoint consumes (r : Regex.re) : bool :=
  match r with
  | Regex.Eps => false
  | Regex.Chr _ | Regex.Dot => true
  | Regex.Seq r1 r2 => consumes r1 || consumes r2
  | Regex.Alt r1 r2 => consumes r1 && consumes r2
  | Regex.Opt _ => false
  | Regex.Plus _ _ => true
  | Regex.Grp _ r1 => consumes r1
  end.

(** Every capture group of [r] takes a character or more. *)
Fixpoint groupsConsume (r : Regex.re) : bool :=
  match r with
  | Regex.Eps | Regex.Chr _ | Regex.Dot => true
  | Regex.Seq r1 r2 | Regex.Alt r1 r2 => groupsConsume r1 && groupsConsume r2
  | Regex.Opt r1 | Regex.Plus _ r1 => groupsConsume r1
  | Regex.Grp _ r1 => consumes r1 && groupsConsume r1
  end.

(** Every capture is a piece of [q] that is not empty. *)
Definition capsWithin (q : string) (c : Regex.caps) : Prop :=
  forall n v, In (n, v) c -> v <> "" /\ Js.includes q v = true.

(** The state of a match under way: where it stands in [q], and what it
    captured. *)
Definition standsIn (q s : string) (c : Regex.caps) : Prop :=
  (exists before, q = before ++ s) /\ capsWithin q c.

(** A successful match split the input in the part it took and the rest,
    on which its continuation succeeded. *)
Definition splits (r : Regex.re) (k : Regex.cont) (s : string) (c res : Regex.caps) (q : string) : Prop :=
  exists p s' c',
    s = p ++ s' /\ k s' c' = Some res /\ standsIn q s' c'
    /\ (consumes r = true -> p <> "").





(** The requests of a list that come with a file. *)
Definition uploads (reqs : list request) : list request :=
  filter (fun req => Js.present (file req)) reqs.

(** * Properties *)

(** ** Strings *)

Section StringFacts.

Import Js.

Lemma lowerChar_upperChar (c : ascii) : lowerChar (upperChar c) = lowerChar c.
Proof. destruct c as [[] [] [] [] [] [] [] []]; reflexivity. Qed.

Lemma upperChar_lowerChar (c : ascii) : upperChar (lowerChar c) = upperChar c.
Proof. destruct c as [[] [] [] [] [] [] [] []]; reflexivity. Qed.

Lemma lowerChar_idem (c : ascii) : lowerChar (lowerChar c) = lowerChar c.
Proof. destruct c as [[] [] [] [] [] [] [] []]; reflexivity. Qed.

Lemma toLowerCase_idem (s : string) : toLowerCase (toLowerCase s) = toLowerCase s.
Proof.
  induction s as [|c s IH]; simpl; [reflexivity|].
  now rewrite lowerChar_idem, IH.
Qed.

Lemma toLowerCase_app (s t : string) :
  toLowerCase (s ++ t) = toLowerCase s ++ toLowerCase t.
Proof. induction s as [|c s IH]; simpl; [reflexivity | now rewrite IH]. Qed.

Lemma append_assoc (s t u : string) : (s ++ t) ++ u = s ++ t ++ u.
Proof. induction s as [|c s IH]; simpl; [reflexivity | now rewrite IH]. Qed.

Lemma truthy_toLowerCase (s : string) : truthy (toLowerCase s) = truthy s.
Proof. destruct s; reflexivity. Qed.

Lemma startsWith_app (s t : string) : startsWith (s ++ t) s = true.
Proof.
  induction s as [|c s IH]; simpl; [reflexivity|].
  now rewrite Ascii.eqb_refl, IH.
Qed.

Lemma includes_startsWith (s sub : string) : startsWith s sub = true -> includes s sub = true.
Proof. intros H. destruct s; simpl in *; rewrite H; reflexivity. Qed.

Lemma includes_skip (s t sub : string) : includes t sub = true -> includes (s ++ t) sub = true.
Proof.
  intros H. induction s as [|c s IH]; simpl; [assumption|].
  rewrite IH. apply orb_true_r.
Qed.

(** A string includes each of the pieces it is put together from. *)
Lemma includes_middle (s sub t : string) : includes (s ++ sub ++ t) sub = true.
Proof. apply includes_skip, includes_startsWith, startsWith_app. Qed.


Lemma startsWith_toLowerCase (s sub : string) :
  startsWith s sub = true -> startsWith (toLowerCase s) (toLowerCase sub) = true.
Proof.
  revert s. induction sub as [|a sub IH]; intros [|b s]; simpl; try easy.
  intros H. apply andb_true_iff in H. destruct H as [Hab H].
  apply Ascii.eqb_eq in Hab. subst b.
  now rewrite Ascii.eqb_refl, IH.
Qed.

(** What a string includes, it includes whatever the case of the letters. *)
Lemma includes_toLowerCase (s sub : string) :
  includes s sub = true -> includes (toLowerCase s) (toLowerCase sub) = true.
Proof.
  induction s as [|c s IH]; simpl; intros H; apply orb_true_iff in H;
    apply orb_true_iff; destruct H as [H|H].
  - left. now apply (startsWith_toLowerCase "" sub).
  - discriminate.
  - left. now apply (startsWith_toLowerCase (String c s) sub).
  - right. now apply IH.
Qed.





Lemma nth_error_last (A : Type) (l : list A) (x : A) :
  nth_error (l ++ [x]) (length (l ++ [x]) - 1) = Some x.
Proof.
  rewrite length_app. simpl.
  replace (length l + 1 - 1) with (length l) by lia.
  rewrite nth_error_app2 by lia.
  now rewrite Nat.sub_diag.
Qed.

End StringFacts.

(** ** The regular expression *)

Section RegexFacts.

Import Js Regex.

Lemma keeps_refl (c : caps) : keeps c c.
Proof. intros n H. exact H. Qed.

Lemma keeps_trans (c1 c2 c3 : caps) : keeps c1 c2 -> keeps c2 c3 -> keeps c1 c3.
Proof. intros H12 H23 n H. apply H23, H12, H. Qed.

Lemma keeps_cons (n : nat) (v : string) (c : caps) : keeps c ((n, v) :: c).
Proof. intros m H. simpl. destruct (Nat.eqb m n); [discriminate | exact H]. Qed.

Lemma plusGreedy_reaches (r : re) (k : cont) (s : string) (c res : caps) :
  plusGreedy r k s c = Some res -> reaches k c res (fun _ => True).
Proof.
  induction s as [|a s IH]; simpl; [discriminate|].
  destruct (accepts r a); [|discriminate].
  destruct (plusGreedy r k s c) as [res'|] eqn:E.
  - intros H. injection H as ->. now apply IH.
  - intros H. exists s, c. auto using keeps_refl.
Qed.

Lemma plusLazy_reaches (r : re) (k : cont) (s : string) (c res : caps) :
  plusLazy r k s c = Some res -> reaches k c res (fun _ => True).
Proof.
  induction s as [|a s IH]; simpl; [discriminate|].
  destruct (accepts r a); [|discriminate].
  destruct (k s c) as [res'|] eqn:E.
  - intros H. injection H as ->. exists s, c. auto using keeps_refl.
  - exact IH.
Qed.

Lemma run_reaches (r : re) :
  forall (k : cont) (s : string) (c res : caps),
    run r k s c = Some res -> reaches k c res (fun _ => True).
Proof.
  induction r as [ |a| |r1 IH1 r2 IH2|r1 IH1 r2 IH2|r1 IH1|lazy r1 IH1|n r1 IH1];
    intros k s c res H; cbn [run] in H.
  - exists s, c. auto using keeps_refl.
  - destruct s as [|b s]; [discriminate|].
    destruct (accepts (Chr a) b); [|discriminate].
    exists s, c. auto using keeps_refl.
  - destruct s as [|b s]; [discriminate|].
    destruct (accepts Dot b); [|discriminate].
    exists s, c. auto using keeps_refl.
  - apply IH1 in H. destruct H as (s1 & c1 & H & K1 & _).
    apply IH2 in H. destruct H as (s2 & c2 & H & K2 & _).
    exists s2, c2. eauto using keeps_trans.
  - destruct (run r1 k s c) as [res'|] eqn:E.
    + injection H as ->. now apply IH1 in E.
    + now apply IH2 in H.
  - destruct (run r1 k s c) as [res'|] eqn:E.
    + injection H as ->. now apply IH1 in E.
    + exists s, c. auto using keeps_refl.
  - destruct lazy; [now apply plusLazy_reaches in H | now apply plusGreedy_reaches in H].
  - apply IH1 in H. destruct H as (s1 & c1 & H & K1 & _).
    exists s1, ((n, consumed s s1) :: c1). split; [exact H|]. split; [|exact I].
    eapply keeps_trans; [exact K1 | apply keeps_cons].
Qed.

Lemma sets_Grp (n : nat) (r : re) : sets n (Grp n r).
Proof.
  intros k s c res H. simpl in H.
  apply run_reaches in H. destruct H as (s1 & c1 & H & K1 & _).
  exists s1, ((n, consumed s s1) :: c1). split; [exact H|]. split.
  - eapply keeps_trans; [exact K1 | apply keeps_cons].
  - simpl. now rewrite Nat.eqb_refl.
Qed.

Lemma sets_Seq_l (n : nat) (r1 r2 : re) : sets n r1 -> sets n (Seq r1 r2).
Proof.
  intros S1 k s c res H. simpl in H.
  apply S1 in H. destruct H as (s1 & c1 & H & K1 & G).
  apply run_reaches in H. destruct H as (s2 & c2 & H & K2 & _).
  exists s2, c2. split; [exact H|]. split; [eauto using keeps_trans|].
  now apply K2.
Qed.

Lemma sets_Seq_r (n : nat) (r1 r2 : re) : sets n r2 -> sets n (Seq r1 r2).
Proof.
  intros S2 k s c res H. simpl in H.
  apply run_reaches in H. destruct H as (s1 & c1 & H & K1 & _).
  apply S2 in H. destruct H as (s2 & c2 & H & K2 & G).
  exists s2, c2. eauto using keeps_trans.
Qed.

Lemma exec_sets (n : nat) (r : re) (s : string) (m : caps) :
  sets n r -> exec r s = Some m -> group n m <> None.
Proof.
  intros Hs. induction s as [|a s IH]; simpl;
    destruct (run r (fun _ c => Some c) _ []) as [res|] eqn:E; intros H;
    try discriminate; try (now apply IH).
  all: injection H as ->; apply Hs in E; destruct E as (s1 & c1 & E & _ & G);
    now injection E as ->.
Qed.

(** The lazy third group stops at the first place from which the rest of
    the pattern matches; the greedy seventh group runs to the end of the
    line. *)
Example extractFileTopics_lazy_greedy :
  extractFileTopics "compare file with a and b and file about c with file about d"
  = Some ("a and b", "c with file about d").
Proof. vm_compute. reflexivity. Qed.

Example extractFileTopics_anywhere :
  extractFileTopics "Please Compare the file about AI and the file about Blockchain tech"
  = Some ("ai", "blockchain tech").
Proof. vm_compute. reflexivity. Qed.

Example extractFileTopics_null :
  extractFileTopics "compare the files about AI and blockchain" = None.
Proof. vm_compute. reflexivity. Qed.

(** The third and the seventh group take part in every match of the
    pattern: [match[3]] and [match[7]] are strings. *)
Lemma extractFileTopics_groups (q : string) (m : caps) :
  exec regex q = Some m -> group 3 m <> None /\ group 7 m <> None.
Proof.
  intros H. split; (eapply exec_sets; [|exact H]); unfold regex; cbn [fold_right];
    repeat first [ apply sets_Grp | apply sets_Seq_l; apply sets_Grp | apply sets_Seq_r ].
Qed.

(** So [extractFileTopics] returns [null] exactly when the pattern does not
    match. *)
Lemma extractFileTopics_None (q : string) :
  extractFileTopics q = None <-> exec regex q = None.
Proof.
  unfold extractFileTopics. split.
  - destruct (exec regex q) as [m|] eqn:E; [|reflexivity].
    destruct (extractFileTopics_groups q E) as [G3 G7].
    destruct (group 3 m); [|contradiction]. destruct (group 7 m); [|contradiction].
    discriminate.
  - now intros ->.
Qed.

(** *** The pattern does not see the case of letters *)

Lemma sameCase_nil (s' : string) : sameCase "" s' -> s' = "".
Proof. destruct s'; [reflexivity | discriminate]. Qed.

Lemma sameCase_cons (a : ascii) (s s' : string) :
  sameCase (String a s) s' ->
  exists b t, s' = String b t /\ lowerChar a = lowerChar b /\ sameCase s t.
Proof.
  destruct s' as [|b t]; [discriminate|].
  intros H. injection H as Hc Hs. now exists b, t.
Qed.

Lemma isLineTerminator_lowerChar (a : ascii) :
  isLineTerminator (lowerChar a) = isLineTerminator a.
Proof. destruct a as [[] [] [] [] [] [] [] []]; reflexivity. Qed.

Lemma accepts_lowerChar (r : re) (a : ascii) : accepts r (lowerChar a) = accepts r a.
Proof.
  induction r as [ |b| |r1 IH1 r2 IH2|r1 IH1 r2 IH2|r1 IH1|lazy r1 IH1|n r1 IH1];
    cbn [accepts]; try reflexivity.
  - unfold canonicalize. now rewrite upperChar_lowerChar.
  - now rewrite isLineTerminator_lowerChar.
  - now rewrite IH1, IH2.
  - exact IH1.
Qed.

Lemma accepts_sameCase (r : re) (a b : ascii) :
  lowerChar a = lowerChar b -> accepts r a = accepts r b.
Proof.
  intros H. rewrite <- (accepts_lowerChar r a), <- (accepts_lowerChar r b).
  now rewrite H.
Qed.

Lemma length_toLowerCase (s : string) : String.length (toLowerCase s) = String.length s.
Proof. induction s as [|a s IH]; simpl; congruence. Qed.

Lemma substring_toLowerCase (n m : nat) (s : string) :
  toLowerCase (substring n m s) = substring n m (toLowerCase s).
Proof.
  revert n m. induction s as [|a s IH]; intros [|n] [|m]; simpl;
    try reflexivity; try apply IH.
  now rewrite IH.
Qed.

Lemma consumed_sameCase (s s' t t' : string) :
  sameCase s s' -> sameCase t t' -> sameCase (consumed s t) (consumed s' t').
Proof.
  unfold sameCase, consumed. intros Hs Ht.
  rewrite !substring_toLowerCase, <- Hs.
  rewrite <- (length_toLowerCase s), <- (length_toLowerCase t), Hs, Ht.
  now rewrite !length_toLowerCase.
Qed.

Lemma sameResult_Some (res : caps) (o : option caps) :
  sameResult (Some res) o -> exists res', o = Some res'.
Proof. destruct o as [res'|]; [now exists res' | discriminate]. Qed.

Lemma sameResult_None (o : option caps) : sameResult None o -> o = None.
Proof. destruct o; [discriminate | reflexivity]. Qed.

(** The common shape of [r1|r2], [r?] and the two quantifiers: a first
    attempt, and a second one when the first fails. *)
Lemma sameResult_orElse (o1 o1' o2 o2' : option caps) :
  sameResult o1 o1' -> sameResult o2 o2' ->
  sameResult (match o1 with Some res => Some res | None => o2 end)
             (match o1' with Some res => Some res | None => o2' end).
Proof.
  intros H1 H2. destruct o1 as [res|].
  - destruct (sameResult_Some H1) as [res' ->]. exact H1.
  - rewrite (sameResult_None H1). exact H2.
Qed.

Lemma plusGreedy_sameCase (r : re) (k k' : cont) (c c' : caps) :
  sameCont k k' -> lowerCaps c = lowerCaps c' ->
  forall s s', sameCase s s' ->
    sameResult (plusGreedy r k s c) (plusGreedy r k' s' c').
Proof.
  intros Hk Hc. induction s as [|a s IH]; intros s' Hs.
  - now rewrite (sameCase_nil Hs).
  - destruct (sameCase_cons Hs) as (b & t & -> & Hab & Hst). simpl.
    rewrite (accepts_sameCase r a b Hab). destruct (accepts r b); [|reflexivity].
    apply sameResult_orElse; [now apply IH | now apply Hk].
Qed.

Lemma plusLazy_sameCase (r : re) (k k' : cont) (c c' : caps) :
  sameCont k k' -> lowerCaps c = lowerCaps c' ->
  forall s s', sameCase s s' ->
    sameResult (plusLazy r k s c) (plusLazy r k' s' c').
Proof.
  intros Hk Hc. induction s as [|a s IH]; intros s' Hs.
  - now rewrite (sameCase_nil Hs).
  - destruct (sameCase_cons Hs) as (b & t & -> & Hab & Hst). simpl.
    rewrite (accepts_sameCase r a b Hab). destruct (accepts r b); [|reflexivity].
    apply sameResult_orElse; [now apply Hk | now apply IH].
Qed.

Lemma run_sameCase (r : re) :
  forall k k', sameCont k k' -> sameCont (run r k) (run r k').
Proof.
  induction r as [ |a| |r1 IH1 r2 IH2|r1 IH1 r2 IH2|r1 IH1|lazy r1 IH1|n r1 IH1];
    intros k k' Hk s s' c c' Hs Hc; cbn [run].
  - now apply Hk.
  - destruct s as [|x s].
    + now rewrite (sameCase_nil Hs).
    + destruct (sameCase_cons Hs) as (y & t & -> & Hxy & Hst).
      rewrite (accepts_sameCase (Chr a) x y Hxy).
      destruct (accepts (Chr a) y); [now apply Hk | reflexivity].
  - destruct s as [|x s].
    + now rewrite (sameCase_nil Hs).
    + destruct (sameCase_cons Hs) as (y & t & -> & Hxy & Hst).
      rewrite (accepts_sameCase Dot x y Hxy).
      destruct (accepts Dot y); [now apply Hk | reflexivity].
  - apply IH1; [|assumption..]. now apply IH2.
  - apply sameResult_orElse; [now apply IH1 | now apply IH2].
  - apply sameResult_orElse; [now apply IH1 | now apply Hk].
  - destruct lazy; [now apply plusLazy_sameCase | now apply plusGreedy_sameCase].
  - apply IH1; [|assumption..].
    intros t t' d d' Ht Hd. apply Hk; [assumption|].
    simpl. rewrite Hd. f_equal. f_equal. now apply consumed_sameCase.
Qed.

Lemma exec_sameCase (r : re) (s : string) :
  forall s', sameCase s s' -> sameResult (exec r s) (exec r s').
Proof.
  assert (Hk : sameCont (fun _ c => Some c) (fun _ c => Some c)).
  { intros t t' d d' _ Hd. unfold sameResult. simpl. now rewrite Hd. }
  induction s as [|a s IH]; intros s' Hs.
  - now rewrite (sameCase_nil Hs).
  - destruct (sameCase_cons Hs) as (b & t & -> & Hab & Hst). cbn [exec].
    apply sameResult_orElse; [|now apply IH].
    now apply run_sameCase.
Qed.

Lemma group_lowerCaps (n : nat) (c : caps) :
  group n (lowerCaps c) = option_map toLowerCase (group n c).
Proof.
  induction c as [|[m v] c IH]; simpl; [reflexivity|].
  destruct (Nat.eqb n m); [reflexivity | exact IH].
Qed.

(** The topics extracted from a question do not depend on the case of its
    letters. *)
Lemma extractFileTopics_sameCase (q q' : string) :
  sameCase q q' -> extractFileTopics q = extractFileTopics q'.
Proof.
  intros H. apply (exec_sameCase regex) in H. unfold extractFileTopics.
  destruct (exec regex q) as [m|].
  - destruct (sameResult_Some H) as [m' E]. rewrite E in *.
    injection H as H.
    assert (G : forall n, option_map toLowerCase (group n m)
                          = option_map toLowerCase (group n m')).
    { intros n. now rewrite <- !group_lowerCaps, H. }
    pose proof (G 3) as G3. pose proof (G 7) as G7.
    destruct (group 3 m), (group 3 m'); try discriminate; try reflexivity;
      destruct (group 7 m), (group 7 m'); try discriminate; try reflexivity.
    simpl in G3, G7. congruence.
  - now rewrite (sameResult_None H).
Qed.

End RegexFacts.

(** ** The steps of the handler *)

Section Steps.

Variable w : world.




Lemma ingest_fileCache (f : cachedFile) (st : state) :
  fileCache (ingest f st) = (fileCache st ++ [f])%list.
Proof. reflexivity. Qed.

Lemma ingest_activeFile (f : cachedFile) (st : state) : activeFile (ingest f st) = Some f.
Proof. unfold ingest. cbn [activeFile]. apply nth_error_last. Qed.

Lemma ingest_eq (f : cachedFile) (st : state) :
  ingest f st = {| fileCache := (fileCache st ++ [f])%list;
                   activeFile := Some f;
                   compareMode := compareMode st |}.
Proof. unfold ingest. now rewrite nth_error_last. Qed.

Lemma uploadStep_absent (st : state) : uploadStep w None st = (Value "", st, []).
Proof. reflexivity. Qed.

(** An upload that is read and given a topic is ingested. *)
Lemma uploadStep_ingests (f : upload) (st : state) (text reply : string) :
  readUpload w f = Some text ->
  create w (contextRequest text) = Some reply ->
  uploadStep w (Some f) st
  = (Value text,
     ingest {| context := Js.toLowerCase (Js.trim reply); content := text |} st,
     [ContextRequest (contextRequest text)]).
Proof.
  intros Hr Hc. unfold uploadStep, determineFileContext, complete, bind, lift, ret, modify.
  rewrite Hr. cbn iota beta. rewrite Hc. reflexivity.
Qed.

(** The upload step asks the service for topics only. *)
Lemma uploadStep_calls (file : option upload) (st st1 : state) (o : outcome string)
    (calls : list call) :
  uploadStep w file st = (o, st1, calls) ->
  forall messages, ~ In (AnswerRequest messages) calls.
Proof.
  destruct file as [f|]; unfold uploadStep, determineFileContext, complete, bind, lift,
    ret, modify, throw.
  - destruct (readUpload w f) as [text|]; cbn iota beta.
    + destruct (create w (contextRequest text)); cbn iota beta;
        intros H; injection H as _ _ <-; intros ms [H|[]]; discriminate.
    + intros H; injection H as _ _ <-. intros ms [].
  - intros H; injection H as _ _ <-. intros ms [].
Qed.

(** [currentContent] reads the state and calls nothing. *)
Lemma currentContent_pure (q : string) (file : bool) (st st' : state) (o : outcome string)
    (calls : list call) :
  currentContent q file st = (o, st', calls) -> st' = st /\ calls = [].
Proof.
  unfold currentContent, bind, get, lift, ret, throw.
  destruct (compareMode st && (2 <=? length (fileCache st))).
  - destruct (nth_error (fileCache st) 0); [|now intros [= _ <- <-]].
    destruct (nth_error (fileCache st) 1); now intros [= _ <- <-].
  - destruct (activeFile st); [now intros [= _ <- <-]|].
    destruct (negb file && (length (fileCache st) =? 0)); [now intros [= _ <- <-]|].
    destruct (nth_error (fileCache st) (length (fileCache st) - 1)); now intros [= _ <- <-].
Qed.

Lemma currentContent_both (q : string) (file : bool) (st : state)
    (first second : cachedFile) (rest : list cachedFile) :
  compareMode st = true ->
  fileCache st = first :: second :: rest ->
  currentContent q file st
  = (Value (bothFilesText (content first) (content second)), st, []).
Proof.
  intros Hm Hc. unfold currentContent, bind, get, lift, ret. now rewrite Hm, Hc.
Qed.

Lemma currentContent_active (q : string) (file : bool) (st : state) (active : cachedFile) :
  compareMode st && (2 <=? length (fileCache st)) = false ->
  activeFile st = Some active ->
  currentContent q file st = (Value (content active), st, []).
Proof.
  intros Hm Ha. unfold currentContent, bind, get, lift, ret. now rewrite Hm, Ha.
Qed.

Lemma currentContent_general (q : string) (st : state) :
  fileCache st = [] ->
  activeFile st = None ->
  currentContent q false st = (Value (generalQuestionText q), st, []).
Proof.
  intros Hc Ha. unfold currentContent, bind, get, lift, ret.
  rewrite Hc, Ha. cbn [length]. now rewrite andb_false_r.
Qed.

(** The last element of a cache that is not empty exists: the fallback of
    line 122 reads a defined value. *)
Lemma currentContent_total (q : string) (file : bool) (st : state) :
  (file = true -> fileCache st <> []) ->
  exists text, currentContent q file st = (Value text, st, []).
Proof.
  intros Hf. unfold currentContent, bind, get, lift, ret, throw.
  destruct (compareMode st && (2 <=? length (fileCache st))) eqn:Hm.
  - apply andb_true_iff in Hm. destruct Hm as [_ Hl]. apply Nat.leb_le in Hl.
    destruct (fileCache st) as [|first [|second rest]]; simpl in Hl; try lia.
    cbn. eauto.
  - destruct (activeFile st) as [active|]; [eauto|].
    destruct (negb file && (length (fileCache st) =? 0)) eqn:Hg; [eauto|].
    assert (Hne : fileCache st <> []).
    { destruct file; [now apply Hf|]. intros E. rewrite E in Hg. discriminate. }
    destruct (fileCache st) as [|g cache] eqn:E using rev_ind; [contradiction|].
    rewrite nth_error_last. eauto.
Qed.

Lemma resolveContext_found (q topic1 topic2 : string) (file : bool) (st : state)
    (foundFile1 foundFile2 : cachedFile) :
  extractFileTopics q = Some (topic1, topic2) ->
  findFile topic1 (fileCache st) = Some foundFile1 ->
  findFile topic2 (fileCache st) = Some foundFile2 ->
  resolveContext (Some q) file st = (Value (comparisonText foundFile1 foundFile2), st, []).
Proof.
  intros Ht H1 H2. unfold resolveContext, bind, get, ret. now rewrite Ht, H1, H2.
Qed.

Lemma resolveContext_missing (q topic1 topic2 : string) (file : bool) (st : state) :
  extractFileTopics q = Some (topic1, topic2) ->
  findFile topic1 (fileCache st) = None \/ findFile topic2 (fileCache st) = None ->
  resolveContext (Some q) file st = (Return comparisonUnavailable, st, []).
Proof.
  intros Ht H. unfold resolveContext, bind, get, respond. rewrite Ht.
  destruct H as [H|H]; rewrite H; [|destruct (findFile topic1 (fileCache st))];
    reflexivity.
Qed.

Lemma resolveContext_switch (q : string) (file : bool) (st : state) :
  extractFileTopics q = None ->
  resolveContext (Some q) file st = currentContent q file (switchFiles q st).
Proof.
  intros Ht. unfold resolveContext, bind, modify. rewrite Ht.
  now destruct (currentContent q file (switchFiles q st)) as [[o st'] calls].
Qed.

Lemma switchFiles_fileCache (q : string) (st : state) :
  fileCache (switchFiles q st) = fileCache st.
Proof.
  unfold switchFiles.
  destruct (mentions q "first file"); [reflexivity|].
  destruct (mentions q "second file"); [reflexivity|].
  destruct (mentions q "both files"); reflexivity.
Qed.

(** The handler, once the upload step and [resolveContext] are known. *)
Lemma handler_returns (req : request) (st st1 st2 : state) (x : string)
    (calls1 calls2 : list call) (r : response) :
  uploadStep w (file req) st = (Value x, st1, calls1) ->
  resolveContext (question req) (Js.present (file req)) st1
  = (Return r, st2, calls2) ->
  handler w req st = (r, st2, (calls1 ++ calls2)%list).
Proof.
  intros Hu Hr. unfold handler, tryBlock, bind. now rewrite Hu, Hr.
Qed.

Lemma handler_answers (req : request) (st st1 st2 : state) (x text : string)
    (calls1 calls2 : list call) :
  uploadStep w (file req) st = (Value x, st1, calls1) ->
  resolveContext (question req) (Js.present (file req)) st1
  = (Value text, st2, calls2) ->
  handler w req st
  = (match create w (answerRequest text (question req)) with
     | Some answer => {| status := 200; body := Answer answer |}
     | None => processingFailure
     end,
     st2,
     (calls1 ++ calls2 ++ [AnswerRequest (answerRequest text (question req))])%list).
Proof.
  intros Hu Hr. unfold handler, tryBlock, bind, complete, ret. rewrite Hu, Hr.
  destruct (create w (answerRequest text (question req))); cbn iota beta;
    now rewrite ?app_nil_r.
Qed.

End Steps.

(** ** Ingesting a file *)

(** C5.  Whatever the state and whatever the file, ingesting the file puts it
    at the end of the cache, makes it the active file, and leaves the
    elements that were in the cache where they were.  (Comparison mode is
    left as it was, too.) *)
Theorem ingest_appends_and_activates (f : cachedFile) (st : state) :
  fileCache (ingest f st) = (fileCache st ++ [f])%list
  /\ nth_error (fileCache (ingest f st)) (length (fileCache (ingest f st)) - 1) = Some f
  /\ length (fileCache (ingest f st)) = S (length (fileCache st))
  /\ firstn (length (fileCache st)) (fileCache (ingest f st)) = fileCache st
  /\ activeFile (ingest f st) = Some f
  /\ compareMode (ingest f st) = compareMode st.
Proof.
  rewrite ingest_eq. cbn [fileCache activeFile compareMode].
  repeat split.
  - apply nth_error_last.
  - rewrite length_app. simpl. lia.
  - rewrite firstn_app, Nat.sub_diag, firstn_all. simpl. apply app_nil_r.
Qed.

(** ** Comparison by topic *)










(** ** Questions without a comparison pattern *)

(** C3, as the program has it.  With an empty cache, no uploaded file, a
    question that does not match the comparison pattern and no active file
    once the switch phrases are dealt with, the context is the question
    after the heading of a general question, and that is what the completion
    service is sent. *)
Theorem general_question_context (w : world) (q : string) (st : state) :
  fileCache st = [] ->
  extractFileTopics q = None ->
  activeFile (switchFiles q st) = None ->
  resolveContext (Some q) false st
  = (Value ("General Question:" ++ Js.nl ++ Js.nl ++ q), switchFiles q st, [])
  /\ snd (handler w {| question := Some q; file := None |} st)
     = [AnswerRequest
          (answerRequest ("General Question:" ++ Js.nl ++ Js.nl ++ q) (Some q))].
Proof.
  intros Hc Ht Ha.
  assert (Hr : resolveContext (Some q) false st
               = (Value (generalQuestionText q), switchFiles q st, [])).
  { rewrite (resolveContext_switch q false st Ht).
    apply currentContent_general; [|exact Ha].
    now rewrite switchFiles_fileCache. }
  split; [exact Hr|].
  now rewrite (handler_answers w {| question := Some q; file := None |} st
                 (uploadStep_absent w st) Hr).
Qed.

Lemma general_question_context_witness :
  resolveContext (Some "What is a ledger?") false initial
  = (Value ("General Question:" ++ Js.nl ++ Js.nl ++ "What is a ledger?"), initial, []).
Proof.
  assert (Ht : extractFileTopics "What is a ledger?" = None) by (vm_compute; reflexivity).
  exact (proj1 (@general_question_context Sample.service "What is a ledger?" initial
                  eq_refl Ht eq_refl)).
Defined.

(** C3 as it is written fails: the context is not the bare question. *)
Lemma general_question_counterexample :
  extractFileTopics "What is a ledger?" = None
  /\ fileCache initial = []
  /\ activeFile (switchFiles "What is a ledger?" initial) = None
  /\ exists text,
       resolveContext (Some "What is a ledger?") false initial = (Value text, initial, [])
       /\ text <> "What is a ledger?"
       /\ text = "General Question:" ++ Js.nl ++ Js.nl ++ "What is a ledger?".
Proof.
  repeat split; try (vm_compute; reflexivity).
  eexists. repeat split; try (vm_compute; reflexivity).
  vm_compute. discriminate.
Qed.

(** C4, as the program has it.  With two files or more in the cache, a
    question that does not match the comparison pattern and contains "both
    files", in letters of any case, but neither "first file" nor "second
    file", gets as context the contents of the first two files of the cache
    under the headings of line 114, whatever else the cache holds, whatever
    the active file and the mode were, and whether or not a file came with
    the request. *)
Theorem both_files_context (q : string) (file : bool) (st : state)
    (first second : cachedFile) (rest : list cachedFile) :
  fileCache st = first :: second :: rest ->
  extractFileTopics q = None ->
  Js.includes (Js.toLowerCase q) "first file" = false ->
  Js.includes (Js.toLowerCase q) "second file" = false ->
  Js.includes (Js.toLowerCase q) "both files" = true ->
  resolveContext (Some q) file st
  = (Value ("Both Files:" ++ Js.nl ++ Js.nl ++ "First File:" ++ Js.nl ++ content first
              ++ Js.nl ++ Js.nl ++ "Second File:" ++ Js.nl ++ content second),
     {| fileCache := fileCache st; activeFile := activeFile st; compareMode := true |},
     []).
Proof.
  intros Hc Ht H1 H2 H3.
  rewrite (resolveContext_switch q file st Ht).
  assert (Hq : Js.truthy q = true) by (destruct q; [discriminate | reflexivity]).
  unfold switchFiles, mentions. rewrite Hq, H1, H2, H3. cbn [andb].
  now apply currentContent_both with (rest := rest).
Qed.

Lemma both_files_context_witness :
  resolveContext (Some "What do BOTH files have in common?") false Sample.comparing
  = (Value (bothFilesText "Models read scans." "Blocks are chained by hashes."),
     Sample.comparing, []).
Proof.
  assert (Ht : extractFileTopics "What do BOTH files have in common?" = None)
    by (vm_compute; reflexivity).
  exact (@both_files_context "What do BOTH files have in common?" false Sample.comparing
           Sample.medicine Sample.ledger [Sample.weather] eq_refl Ht eq_refl eq_refl eq_refl).
Defined.

(** C4 as it is written fails: a question that contains "both files" and
    "first file" gets the content of the first file alone. *)
Lemma both_files_counterexample :
  let q := "Is the first file the longer of both files?" in
  extractFileTopics q = None
  /\ Js.includes q "both files" = true
  /\ fileCache Sample.two = [Sample.medicine; Sample.ledger]
  /\ resolveContext (Some q) false Sample.two
     = (Value (content Sample.medicine),
        {| fileCache := [Sample.medicine; Sample.ledger];
           activeFile := Some Sample.medicine;
           compareMode := false |},
        [])
  /\ content Sample.medicine
     <> bothFilesText (content Sample.medicine) (content Sample.ledger).
Proof.
  cbv zeta. repeat split; try (vm_compute; reflexivity).
  vm_compute. discriminate.
Qed.

(** [question && question.toLowerCase().includes(phrase)] is the test
    whether the question, in lower case, includes the phrase. *)
Lemma mentions_includes (q phrase : string) :
  phrase <> "" -> mentions q phrase = Js.includes (Js.toLowerCase q) phrase.
Proof.
  intros Hp. unfold mentions. destruct q as [|c q]; [|reflexivity].
  destruct phrase; [contradiction | reflexivity].
Qed.

Lemma mentions_sameCase (q q' phrase : string) :
  Js.toLowerCase q' = Js.toLowerCase q -> mentions q' phrase = mentions q phrase.
Proof.
  intros H. unfold mentions.
  now rewrite <- (truthy_toLowerCase q'), <- (truthy_toLowerCase q), H.
Qed.

(** The state that [resolveContext] leaves behind for a question without
    comparison pattern. *)
Lemma resolveContext_state (q : string) (file : bool) (st : state) :
  extractFileTopics q = None ->
  snd (fst (resolveContext (Some q) file st)) = switchFiles q st.
Proof.
  intros Ht. rewrite (resolveContext_switch q file st Ht).
  destruct (currentContent q file (switchFiles q st)) as [[o st'] calls] eqn:E.
  now destruct (currentContent_pure _ _ _ E).
Qed.

(** C6.  For a question that does not match the comparison pattern, the
    state after [resolveContext] is decided by the first of "first file",
    "second file" and "both files", in this order, that the question in
    lower case includes: the first two make element 0, respectively 1, of the
    cache the active file and leave comparison mode, the third enters
    comparison mode and keeps the active file, and without any of them the
    state is unchanged.  The cache is never changed, and two questions that
    differ in the case of letters only leave the same state. *)
Theorem switch_phrases (q : string) (file : bool) (st : state) :
  extractFileTopics q = None ->
  let has := fun phrase => Js.includes (Js.toLowerCase q) phrase in
  let st' := snd (fst (resolveContext (Some q) file st)) in
  fileCache st' = fileCache st
  /\ (has "first file" = true ->
      activeFile st' = nth_error (fileCache st) 0 /\ compareMode st' = false)
  /\ (has "first file" = false -> has "second file" = true ->
      activeFile st' = nth_error (fileCache st) 1 /\ compareMode st' = false)
  /\ (has "first file" = false -> has "second file" = false -> has "both files" = true ->
      activeFile st' = activeFile st /\ compareMode st' = true)
  /\ (has "first file" = false -> has "second file" = false -> has "both files" = false ->
      st' = st)
  /\ (forall q', Js.toLowerCase q' = Js.toLowerCase q ->
      snd (fst (resolveContext (Some q') file st)) = st').
Proof.
  intros Ht has st'. unfold st', has. rewrite (resolveContext_state q file st Ht).
  split; [apply switchFiles_fileCache|].
  unfold switchFiles.
  rewrite !mentions_includes by discriminate.
  refine (conj _ (conj _ (conj _ (conj _ _)))).
  - intros H1. now rewrite H1.
  - intros H1 H2. now rewrite H1, H2.
  - intros H1 H2 H3. now rewrite H1, H2, H3.
  - intros H1 H2 H3. now rewrite H1, H2, H3.
  - intros q' Hq.
    assert (Ht' : extractFileTopics q' = None)
      by (rewrite <- Ht; now apply extractFileTopics_sameCase).
    rewrite (resolveContext_state q' file st Ht'). unfold switchFiles.
    rewrite !(@mentions_sameCase q q' _ Hq), !mentions_includes by discriminate.
    reflexivity.
Qed.

Lemma switch_phrases_witness :
  let st' := snd (fst (resolveContext (Some "Now the SECOND file, not both files.") false
                         Sample.comparing)) in
  activeFile st' = Some Sample.ledger /\ compareMode st' = false.
Proof.
  assert (Ht : extractFileTopics "Now the SECOND file, not both files." = None)
    by (vm_compute; reflexivity).
  exact (proj1 (proj2 (proj2 (@switch_phrases "Now the SECOND file, not both files." false
                                Sample.comparing Ht))) eq_refl eq_refl).
Defined.

(** ** Matching of topics *)

(** The topics returned by [extractFileTopics] are in lower case. *)
Lemma extractFileTopics_lower (q topic1 topic2 : string) :
  extractFileTopics q = Some (topic1, topic2) ->
  Js.toLowerCase topic1 = topic1 /\ Js.toLowerCase topic2 = topic2.
Proof.
  unfold extractFileTopics. destruct (Regex.exec regex q) as [m|]; [|discriminate].
  destruct (Regex.group 3 m) as [m3|]; [|discriminate].
  destruct (Regex.group 7 m) as [m7|]; [|discriminate].
  intros [= <- <-]. now rewrite !toLowerCase_idem.
Qed.




(** ** Failures *)

(** [resolveContext] on a question that is a string, in a state whose cache
    is not empty when a file came with the request. *)
Lemma resolveContext_total (q : string) (file : bool) (st : state) :
  (file = true -> fileCache st <> []) ->
  (exists text st', resolveContext (Some q) file st = (Value text, st', []))
  \/ (resolveContext (Some q) file st = (Return comparisonUnavailable, st, [])
      /\ exists topic1 topic2,
           extractFileTopics q = Some (topic1, topic2)
           /\ (findFile topic1 (fileCache st) = None
               \/ findFile topic2 (fileCache st) = None)).
Proof.
  intros Hfile.
  destruct (extractFileTopics q) as [[topic1 topic2]|] eqn:Ht.
  - destruct (findFile topic1 (fileCache st)) as [f1|] eqn:H1.
    + destruct (findFile topic2 (fileCache st)) as [f2|] eqn:H2.
      * left. exists (comparisonText f1 f2), st.
        now apply (resolveContext_found q _ st Ht).
      * right. split; [|now eauto].
        apply (resolveContext_missing q _ st Ht). now right.
    + right. split; [|now eauto].
      apply (resolveContext_missing q _ st Ht). now left.
  - left. rewrite (resolveContext_switch q _ st Ht).
    destruct (currentContent_total q (file := file) (switchFiles q st))
      as [text Hc]; [|now eauto].
    now rewrite switchFiles_fileCache.
Qed.

(** C8.  For a question that is a string, in any state, after the ingest of a
    file or without one, [resolveContext] either produces a text or returns
    the comparison error, and it returns the error only for a question that
    matches the comparison pattern and has a topic that no file matches.  It
    never throws: the elements of the cache that it reads, the last one
    among them, exist. *)
Theorem resolveContext_failures (q : string) (uploaded : option cachedFile) (st : state) :
  let st1 := match uploaded with Some f => ingest f st | None => st end in
  let r := resolveContext (Some q) (Js.present uploaded) st1 in
  (exists text st2, r = (Value text, st2, []))
  \/ (r = (Return comparisonUnavailable, st1, [])
      /\ exists topic1 topic2,
           extractFileTopics q = Some (topic1, topic2)
           /\ (findFile topic1 (fileCache st1) = None
               \/ findFile topic2 (fileCache st1) = None)).
Proof.
  intros st1 r. apply resolveContext_total. unfold st1.
  destruct uploaded as [f|]; [|discriminate].
  intros _. rewrite ingest_fileCache. destruct (fileCache st); discriminate.
Qed.

(** The handler answers with the status 500 only when the question is absent
    or a collaborator failed. *)
Lemma handler_processingFailure (w : world) (req : request) (st : state) :
  status (fst (fst (handler w req st))) = 500 ->
  question req = None
  \/ (exists f, file req = Some f /\ readUpload w f = None)
  \/ (exists messages, create w messages = None
        /\ (In (ContextRequest messages) (snd (handler w req st))
            \/ In (AnswerRequest messages) (snd (handler w req st)))).
Proof.
  destruct req as [[q|] upl]; [|now left]. cbn [question file].
  assert (Hres : forall (x : string) (st1 : state) (calls : list call),
            uploadStep w upl st = (Value x, st1, calls) ->
            (Js.present upl = true -> fileCache st1 <> []) ->
            status (fst (fst (handler w {| question := Some q; file := upl |} st))) = 500 ->
            exists messages, create w messages = None
              /\ In (AnswerRequest messages)
                   (snd (handler w {| question := Some q; file := upl |} st))).
  { intros x st1 calls Hu Hne.
    destruct (@resolveContext_total q (Js.present upl) st1 Hne)
      as [(text & st2 & Hr)|[Hr _]].
    - rewrite (handler_answers w {| question := Some q; file := upl |} st Hu Hr).
      cbn [fst snd question].
      destruct (create w (answerRequest text (Some q))) eqn:E; [discriminate|].
      intros _. exists (answerRequest text (Some q)). split; [exact E|].
      apply in_or_app. right. apply in_or_app. right. now left.
    - rewrite (handler_returns w {| question := Some q; file := upl |} st Hu Hr).
      discriminate. }
  destruct upl as [f|].
  - destruct (readUpload w f) as [text|] eqn:Er; [|right; left; now eauto].
    destruct (create w (contextRequest text)) as [reply|] eqn:Ec.
    + intros H. right. right.
      destruct (Hres _ _ _ (uploadStep_ingests w f st Er Ec)) as (ms & Hms & Hin);
        [|exact H|now eauto].
      intros _. rewrite ingest_fileCache. destruct (fileCache st); discriminate.
    + intros _. right. right. exists (contextRequest text). split; [exact Ec|]. left.
      unfold handler, tryBlock, bind. cbn [file question].
      unfold uploadStep, determineFileContext, complete, bind, lift, ret.
      rewrite Er. cbn iota beta. rewrite Ec. cbn. now left.
  - intros H. right. right.
    destruct (Hres _ _ _ (uploadStep_absent w st)) as (ms & Hms & Hin);
      [discriminate|exact H|now eauto].
Qed.

(** ** Comparison mode and uploads *)



(** ** The invariant of the state *)

Lemma initial_activeStored : activeStored initial.
Proof. intros f H. discriminate. Qed.

Lemma ingest_activeStored (f : cachedFile) (st : state) : activeStored (ingest f st).
Proof.
  intros g. rewrite ingest_activeFile, ingest_fileCache. intros [= <-].
  apply in_or_app. right. now left.
Qed.

Lemma switchFiles_activeStored (q : string) (st : state) :
  activeStored st -> activeStored (switchFiles q st).
Proof.
  intros H f. unfold switchFiles.
  destruct (mentions q "first file");
    [cbn [activeFile fileCache]; now apply nth_error_In|].
  destruct (mentions q "second file");
    [cbn [activeFile fileCache]; now apply nth_error_In|].
  destruct (mentions q "both files"); [cbn [activeFile fileCache]|]; apply H.
Qed.

Lemma resolveContext_activeStored (question : option string) (file : bool) (st st' : state)
    (o : outcome string) (calls : list call) :
  resolveContext question file st = (o, st', calls) ->
  activeStored st -> activeStored st'.
Proof.
  destruct question as [q|]; [|now intros [= _ <- _]].
  destruct (extractFileTopics q) as [[topic1 topic2]|] eqn:Ht.
  - unfold resolveContext, bind, get, ret, respond. rewrite Ht.
    destruct (findFile topic1 (fileCache st)); [|now intros [= _ <- _]].
    destruct (findFile topic2 (fileCache st)); now intros [= _ <- _].
  - rewrite (resolveContext_switch q file st Ht). intros H.
    destruct (currentContent_pure _ _ _ H) as [-> _].
    apply switchFiles_activeStored.
Qed.

Lemma uploadStep_activeStored (w : world) (file : option upload) (st st' : state)
    (o : outcome string) (calls : list call) :
  uploadStep w file st = (o, st', calls) ->
  activeStored st -> activeStored st'.
Proof.
  destruct file as [f|]; [|now intros [= _ <- _]].
  unfold uploadStep, determineFileContext, complete, bind, lift, ret, modify, throw.
  destruct (readUpload w f) as [text|]; cbn iota beta; [|now intros [= _ <- _]].
  destruct (create w (contextRequest text)); cbn iota beta; [|now intros [= _ <- _]].
  intros [= _ <- _] _. apply ingest_activeStored.
Qed.

(** Every request leaves the active file, when there is one, in the cache. *)
Lemma handler_activeStored (w : world) (req : request) (st : state) :
  activeStored st -> activeStored (snd (fst (handler w req st))).
Proof.
  intros H. unfold handler, tryBlock, bind.
  destruct (uploadStep w (file req) st) as [[o1 st1] calls1] eqn:E1.
  assert (H1 : activeStored st1) by (eapply uploadStep_activeStored; eassumption).
  destruct o1 as [x| |]; try exact H1.
  destruct (resolveContext (question req) (Js.present (file req)) st1)
    as [[o2 st2] calls2] eqn:E2.
  assert (H2 : activeStored st2) by (eapply resolveContext_activeStored; eassumption).
  destruct o2 as [text| |]; try exact H2.
  unfold complete, ret.
  destruct (create w (answerRequest text (question req))); exact H2.
Qed.

Lemma serve_activeStored (w : world) (reqs : list request) :
  forall st, activeStored st -> activeStored (snd (serve w reqs st)).
Proof.
  induction reqs as [|req reqs IH]; intros st H; [exact H|].
  cbn [serve]. pose proof (@handler_activeStored w req st H) as H1.
  destruct (handler w req st) as [[r st1] calls]. cbn [fst snd] in H1.
  specialize (IH st1 H1). now destruct (serve w reqs st1).
Qed.

(** While the cache is empty no file is active, whatever the question. *)
Lemma empty_cache_no_active (q : string) (st : state) :
  activeStored st -> fileCache st = [] -> activeFile (switchFiles q st) = None.
Proof.
  intros H Hc. pose proof (@switchFiles_activeStored q st H) as H'.
  destruct (activeFile (switchFiles q st)) as [f|] eqn:E; [|reflexivity].
  specialize (H' f E). rewrite switchFiles_fileCache, Hc in H'. contradiction.
Qed.

(** * Further properties of the code *)

Unset Implicit Arguments.

(** ** What a match of the pattern consists of *)

Section RegexSound.

Import Js Regex.

Lemma length_app_string (s t : string) :
  String.length (s ++ t) = String.length s + String.length t.
Proof. induction s as [|a s IH]; simpl; [reflexivity | now rewrite IH]. Qed.

Lemma substring_prefix (s t : string) : substring 0 (String.length s) (s ++ t) = s.
Proof.
  induction s as [|a s IH]; simpl; [now destruct t | now rewrite IH].
Qed.

(** What is consumed from [p ++ rest] when [rest] remains is [p]. *)
Lemma consumed_app (p rest : string) : consumed (p ++ rest) rest = p.
Proof.
  unfold consumed. rewrite length_app_string.
  replace (String.length p + String.length rest - String.length rest)
    with (String.length p) by lia.
  apply substring_prefix.
Qed.

Lemma group_In (n : nat) (c : caps) (v : string) : group n c = Some v -> In (n, v) c.
Proof.
  induction c as [|[m u] c IH]; simpl; [discriminate|].
  destruct (Nat.eqb_spec n m) as [->|Hne].
  - intros [= ->]. now left.
  - intros H. right. now apply IH.
Qed.

Lemma toLowerCase_not_empty (s : string) : s <> "" -> toLowerCase s <> "".
Proof. destruct s; [contradiction | discriminate]. Qed.

Lemma lowerChar_of_canonicalize (a b : ascii) :
  canonicalize a = canonicalize b -> lowerChar a = lowerChar b.
Proof.
  unfold canonicalize. intros H.
  now rewrite <- (lowerChar_upperChar a), <- (lowerChar_upperChar b), H.
Qed.

Lemma standsIn_step (q p s : string) (c : caps) :
  standsIn q (p ++ s) c -> standsIn q s c.
Proof.
  intros [[before ->] Hc]. split; [|exact Hc].
  exists (before ++ p). now rewrite append_assoc.
Qed.

Lemma standsIn_capture (q p s : string) (c : caps) (n : nat) :
  p <> "" -> standsIn q (p ++ s) c -> standsIn q s ((n, p) :: c).
Proof.
  intros Hp H. destruct (standsIn_step _ _ _ _ H) as [Hs _].
  destruct H as [[before ->] Hc]. split; [exact Hs|].
  intros m v [[= <- <-]|Hin]; [|exact (Hc m v Hin)].
  split; [exact Hp | apply includes_middle].
Qed.

(** Solves the parts of a split that are at hand. *)
Ltac parts :=
  repeat (split; [first [reflexivity | discriminate | assumption]|]);
  first [assumption | discriminate | idtac].

Lemma plusGreedy_splits (r : re) (k : cont) (q : string) (c res : caps) :
  forall s, plusGreedy r k s c = Some res -> standsIn q s c ->
    exists p s', s = p ++ s' /\ p <> "" /\ k s' c = Some res /\ standsIn q s' c.
Proof.
  induction s as [|a s IH]; simpl; [discriminate|].
  destruct (accepts r a); [|discriminate]. intros H Hq.
  pose proof (standsIn_step q (String a "") s c Hq) as Hq'.
  destruct (plusGreedy r k s c) as [res'|] eqn:E.
  - injection H as ->. destruct (IH eq_refl Hq') as (p & s' & -> & _ & Hk & Hs).
    exists (String a p), s'. parts.
  - exists (String a ""), s. parts.
Qed.

Lemma plusLazy_splits (r : re) (k : cont) (q : string) (c res : caps) :
  forall s, plusLazy r k s c = Some res -> standsIn q s c ->
    exists p s', s = p ++ s' /\ p <> "" /\ k s' c = Some res /\ standsIn q s' c.
Proof.
  induction s as [|a s IH]; simpl; [discriminate|].
  destruct (accepts r a); [|discriminate]. intros H Hq.
  pose proof (standsIn_step q (String a "") s c Hq) as Hq'.
  destruct (k s c) as [res'|] eqn:E.
  - injection H as ->. exists (String a ""), s. parts.
  - destruct (IH H Hq') as (p & s' & -> & _ & Hk & Hs).
    exists (String a p), s'. parts.
Qed.

Lemma run_splits (q : string) (r : re) :
  groupsConsume r = true ->
  forall k s c res, run r k s c = Some res -> standsIn q s c -> splits r k s c res q.
Proof.
  induction r as [ |a| |r1 IH1 r2 IH2|r1 IH1 r2 IH2|r1 IH1|lazy r1 IH1|n r1 IH1];
    intros Hg k s c res H Hq; cbn [run] in H; cbn [groupsConsume] in Hg.
  - exists "", s, c. parts.
  - destruct s as [|b s]; [discriminate|].
    destruct (accepts (Chr a) b); [|discriminate].
    pose proof (standsIn_step q (String b "") s c Hq) as Hq'.
    exists (String b ""), s, c. parts.
  - destruct s as [|b s]; [discriminate|].
    destruct (accepts Dot b); [|discriminate].
    pose proof (standsIn_step q (String b "") s c Hq) as Hq'.
    exists (String b ""), s, c. parts.
  - apply andb_true_iff in Hg. destruct Hg as [Hg1 Hg2].
    destruct (IH1 Hg1 _ _ _ _ H Hq) as (p1 & s1 & c1 & -> & H1 & Hq1 & Hp1).
    destruct (IH2 Hg2 _ _ _ _ H1 Hq1) as (p2 & s2 & c2 & -> & H2 & Hq2 & Hp2).
    exists (p1 ++ p2), s2, c2. rewrite append_assoc. parts.
    cbn [consumes]. intros Hc. apply orb_true_iff in Hc.
    destruct Hc as [Hc|Hc].
    + specialize (Hp1 Hc). destruct p1; [contradiction | discriminate].
    + specialize (Hp2 Hc). destruct p1; [exact Hp2 | discriminate].
  - apply andb_true_iff in Hg. destruct Hg as [Hg1 Hg2].
    destruct (run r1 k s c) as [res'|] eqn:E.
    + injection H as ->.
      destruct (IH1 Hg1 _ _ _ _ E Hq) as (p & s' & c' & -> & Hk & Hs & Hp).
      exists p, s', c'. parts.
      cbn [consumes]. intros Hc. apply andb_true_iff in Hc. now apply Hp.
    + destruct (IH2 Hg2 _ _ _ _ H Hq) as (p & s' & c' & -> & Hk & Hs & Hp).
      exists p, s', c'. parts.
      cbn [consumes]. intros Hc. apply andb_true_iff in Hc. now apply Hp.
  - destruct (run r1 k s c) as [res'|] eqn:E.
    + injection H as ->.
      destruct (IH1 Hg _ _ _ _ E Hq) as (p & s' & c' & -> & Hk & Hs & Hp).
      exists p, s', c'. parts.
    + exists "", s, c. parts.
  - assert (Hx : exists p s', s = p ++ s' /\ p <> "" /\ k s' c = Some res
                              /\ standsIn q s' c).
    { destruct lazy;
        [exact (plusLazy_splits r1 k q c res s H Hq)
        |exact (plusGreedy_splits r1 k q c res s H Hq)]. }
    destruct Hx as (p & s' & -> & Hp & Hk & Hs).
    exists p, s', c. parts. intros _. exact Hp.
  - apply andb_true_iff in Hg. destruct Hg as [Hc1 Hg1].
    destruct (IH1 Hg1 _ _ _ _ H Hq) as (p & s' & c' & -> & Hk & Hs & Hp).
    rewrite consumed_app in Hk. specialize (Hp Hc1).
    assert (Hq2 : standsIn q (p ++ s') c') by (split; [apply Hq | apply Hs]).
    pose proof (standsIn_capture q p s' c' n Hp Hq2) as Hq3.
    exists p, s', ((n, p) :: c'). parts. intros _. exact Hp.
Qed.

(** A match found by [exec] starts somewhere in the input. *)
Lemma exec_start (r : re) (m : caps) :
  forall s, exec r s = Some m ->
    exists before s0, s = before ++ s0 /\ run r (fun _ c => Some c) s0 [] = Some m.
Proof.
  induction s as [|a s IH]; cbn [exec];
    destruct (run r (fun _ c => Some c) _ []) as [res|] eqn:E; intros H.
  - injection H as ->. now exists "", "".
  - discriminate.
  - injection H as ->. now exists "", (String a s).
  - destruct (IH H) as (before & s0 & -> & Hr).
    now exists (String a before), s0.
Qed.

(** A run of pattern characters took the same characters, whatever their
    case, from the input. *)
Lemma run_lit (l : string) :
  forall k s c res, run (Seq (lit l) Eps) k s c = Some res ->
    exists p s', s = p ++ s' /\ toLowerCase p = toLowerCase l /\ k s' c = Some res.
Proof.
  induction l as [|a l IH]; intros k s c res H.
  - now exists "", s.
  - cbn [lit run] in H. destruct s as [|b s]; [discriminate|].
    destruct (accepts (Chr a) b) eqn:E; [|discriminate].
    cbn [accepts] in E. apply Ascii.eqb_eq, lowerChar_of_canonicalize in E.
    destruct (IH k s c res) as (p & s' & -> & Hp & Hk); [exact H|].
    exists (String b p), s'. simpl. now rewrite Hp, E.
Qed.

(** X1.  The topics that [extractFileTopics] returns are pieces of the
    question: each is not empty, is in lower case and occurs in the question
    put in lower case, and such a question contains the word "compare"
    followed by a space. *)
Theorem extractFileTopics_sound (q topic1 topic2 : string) :
  extractFileTopics q = Some (topic1, topic2) ->
  topic1 <> "" /\ topic2 <> ""
  /\ toLowerCase topic1 = topic1 /\ toLowerCase topic2 = topic2
  /\ includes (toLowerCase q) topic1 = true
  /\ includes (toLowerCase q) topic2 = true
  /\ includes (toLowerCase q) "compare " = true.
Proof.
  intros Ht. destruct (extractFileTopics_lower _ Ht) as [Hl1 Hl2].
  unfold extractFileTopics in Ht.
  destruct (exec regex q) as [m|] eqn:E; [|discriminate].
  destruct (exec_start regex m q E) as (before & s0 & Hq & Hrun).
  assert (Hs0 : standsIn q s0 []).
  { split; [now exists before | intros n v []]. }
  destruct (run_splits q regex eq_refl _ _ _ _ Hrun Hs0)
    as (p & s' & c' & _ & [= ->] & [_ Hcaps] & _).
  destruct (group 3 m) as [m3|] eqn:G3; [|discriminate].
  destruct (group 7 m) as [m7|] eqn:G7; [|discriminate].
  injection Ht as <- <-.
  destruct (Hcaps 3 m3 (group_In 3 m m3 G3)) as [N3 I3].
  destruct (Hcaps 7 m7 (group_In 7 m m7 G7)) as [N7 I7].
  repeat split; try assumption.
  - now apply toLowerCase_not_empty.
  - now apply toLowerCase_not_empty.
  - now apply includes_toLowerCase.
  - now apply includes_toLowerCase.
  - change (run regex (fun _ c => Some c) s0 [])
      with (run (Seq (lit "compare ") Eps)
              (fun s1 c1 => run (Seq (Opt (Grp 1 (lit "the ")))
                 (fold_right Seq Eps
                    [lit "file "; Grp 2 (Alt (lit "about") (lit "with")); Chr " ";
                     Grp 3 (Plus true Dot); Chr " ";
                     Grp 4 (Alt (lit "and") (lit "with")); Chr " ";
                     Opt (Grp 5 (lit "the ")); lit "file ";
                     Grp 6 (Alt (lit "about") (lit "with")); Chr " ";
                     Grp 7 (Plus false Dot)])) (fun _ c => Some c) s1 c1) s0 []) in Hrun.
    destruct (run_lit _ _ _ _ _ Hrun) as (p1 & s1 & -> & Hp1 & _).
    rewrite Hq, !toLowerCase_app, Hp1. apply includes_middle.
Qed.

Lemma extractFileTopics_sound_witness :
  includes (toLowerCase "Please Compare the file about AI and the file about Blockchain tech")
    "blockchain tech" = true.
Proof.
  assert (Ht : extractFileTopics
                 "Please Compare the file about AI and the file about Blockchain tech"
               = Some ("ai", "blockchain tech")) by (vm_compute; reflexivity).
  exact (proj1 (proj2 (proj2 (proj2 (proj2 (proj2
           (extractFileTopics_sound _ "ai" "blockchain tech" Ht))))))).
Defined.

End RegexSound.

(** ** Questions that the pattern accepts *)

Section RegexComplete.

Import Js Regex.





















End RegexComplete.

(** ** Requests that fail *)

Lemma resolveContext_calls (qo : option string) (fl : bool) (st st' : state)
    (o : outcome string) (calls : list call) :
  resolveContext qo fl st = (o, st', calls) -> calls = [].
Proof.
  destruct qo as [q|]; [|now intros [= _ _ <-]].
  destruct (extractFileTopics q) as [[topic1 topic2]|] eqn:Ht.
  - unfold resolveContext, bind, get, ret, respond. rewrite Ht.
    destruct (findFile topic1 (fileCache st)); [|now intros [= _ _ <-]].
    destruct (findFile topic2 (fileCache st)); now intros [= _ _ <-].
  - rewrite (@resolveContext_switch q fl st Ht). intros H.
    now destruct (@currentContent_pure q fl _ _ _ _ H).
Qed.

(** X3.  A request without a question is answered with the status 500,
    whatever the state and whether or not a file came with it, and the
    answer is never requested from the completion service. *)
Theorem absent_question_fails (w : world) (fl : option upload) (st : state) :
  fst (fst (handler w {| question := None; file := fl |} st)) = processingFailure
  /\ status (fst (fst (handler w {| question := None; file := fl |} st))) = 500
  /\ forall messages,
       ~ In (AnswerRequest messages) (snd (handler w {| question := None; file := fl |} st)).
Proof.
  unfold handler, tryBlock, bind. cbn [question file].
  destruct (uploadStep w fl st) as [[o st1] calls1] eqn:Eu.
  pose proof (uploadStep_calls w fl st Eu) as Hc.
  destruct o as [x| |]; cbn [fst snd].
  - unfold resolveContext, throw. cbn [fst snd]. rewrite app_nil_r. now repeat split.
  - exfalso. revert Eu. destruct fl as [f|]; [|discriminate].
    unfold uploadStep, determineFileContext, complete, bind, lift, ret, modify, throw.
    destruct (readUpload w f) as [text|]; cbn iota beta; [|discriminate].
    destruct (create w (contextRequest text)); cbn iota beta; discriminate.
  - now repeat split.
Qed.

(** X4.  When the uploaded file cannot be read, or no topic can be had for
    it, the request is answered with the status 500 and the state is left as
    it was: nothing is stored, no file becomes active, and the question is
    not looked at. *)
Theorem failed_upload_changes_nothing (w : world) (f : upload) (qo : option string)
    (st : state) :
  readUpload w f = None
  \/ (exists text, readUpload w f = Some text /\ create w (contextRequest text) = None) ->
  fst (handler w {| question := qo; file := Some f |} st) = (processingFailure, st)
  /\ forall messages,
       ~ In (AnswerRequest messages)
            (snd (handler w {| question := qo; file := Some f |} st)).
Proof.
  intros H. unfold handler, tryBlock, bind. cbn [question file].
  unfold uploadStep, determineFileContext, complete, bind, lift, ret, modify, throw.
  destruct H as [Hr|(text & Hr & Hc)]; rewrite Hr; cbn iota beta.
  - split; [reflexivity | intros ms []].
  - rewrite Hc. cbn iota beta. split; [reflexivity|].
    intros ms [H|[]]. discriminate.
Qed.

Lemma failed_upload_changes_nothing_witness :
  fst (handler {| readFileSync := fun _ => None;
                  pdfText := fun _ => None;
                  create := fun _ => Some "I see." |}
         {| question := Some "What does the first file say?";
            file := Some Sample.report |}
         Sample.two)
  = (processingFailure, Sample.two).
Proof.
  exact (proj1 (failed_upload_changes_nothing
                  {| readFileSync := fun _ => None;
                     pdfText := fun _ => None;
                     create := fun _ => Some "I see." |}
                  Sample.report (Some "What does the first file say?") Sample.two
                  (or_introl eq_refl))).
Defined.

(** X5.  The status 500 has three causes only: the question is absent, the
    uploaded file could not be read, or a call of the completion service
    that the request made failed. *)
Theorem failure_causes (w : world) (req : request) (st : state) :
  status (fst (fst (handler w req st))) = 500 ->
  question req = None
  \/ (exists f, file req = Some f /\ readUpload w f = None)
  \/ (exists messages, create w messages = None
        /\ (In (ContextRequest messages) (snd (handler w req st))
            \/ In (AnswerRequest messages) (snd (handler w req st)))).
Proof. apply handler_processingFailure. Qed.

Lemma failure_causes_witness :
  exists messages,
    create {| readFileSync := fun _ => None;
              pdfText := fun _ => None;
              create := fun _ => None |} messages = None
    /\ In (AnswerRequest messages)
          (snd (handler {| readFileSync := fun _ => None;
                           pdfText := fun _ => None;
                           create := fun _ => None |}
                  {| question := Some "What is a ledger?"; file := None |} initial)).
Proof.
  destruct (failure_causes
              {| readFileSync := fun _ => None;
                 pdfText := fun _ => None;
                 create := fun _ => None |}
              {| question := Some "What is a ledger?"; file := None |} initial eq_refl)
    as [H|[(f & H & _)|(messages & Hc & [H|H])]].
  - discriminate.
  - discriminate.
  - vm_compute in H. destruct H as [H|[]]. discriminate.
  - exists messages. split; [reflexivity | exact H].
Defined.

(** ** What every request keeps *)

Section Invariants.

Import Js.

Variable w : world.

(** The upload step stores one file or none. *)
Lemma uploadStep_fileCache (fl : option upload) (st st1 : state) (o : outcome string)
    (calls : list call) :
  uploadStep w fl st = (o, st1, calls) ->
  st1 = st
  \/ (exists f text reply,
        fl = Some f /\ readUpload w f = Some text
        /\ create w (contextRequest text) = Some reply
        /\ st1 = ingest {| context := toLowerCase (trim reply); content := text |} st).
Proof.
  destruct fl as [f|]; [|intros [= _ <- _]; now left].
  unfold uploadStep, determineFileContext, complete, bind, lift, ret, modify, throw.
  destruct (readUpload w f) as [text|] eqn:Er; cbn iota beta;
    [|intros [= _ <- _]; now left].
  destruct (create w (contextRequest text)) as [reply|] eqn:Ec; cbn iota beta;
    [|intros [= _ <- _]; now left].
  intros [= _ <- _]. right. now exists f, text, reply.
Qed.

Lemma resolveContext_fileCache (qo : option string) (fl : bool) (st st' : state)
    (o : outcome string) (calls : list call) :
  resolveContext qo fl st = (o, st', calls) -> fileCache st' = fileCache st.
Proof.
  destruct qo as [q|]; [|now intros [= _ <- _]].
  destruct (extractFileTopics q) as [[topic1 topic2]|] eqn:Ht.
  - unfold resolveContext, bind, get, ret, respond. rewrite Ht.
    destruct (findFile topic1 (fileCache st)); [|now intros [= _ <- _]].
    destruct (findFile topic2 (fileCache st)); now intros [= _ <- _].
  - rewrite (@resolveContext_switch q fl st Ht). intros H.
    destruct (@currentContent_pure q fl _ _ _ _ H) as [-> _].
    apply switchFiles_fileCache.
Qed.

(** The state and the calls of a request, step by step. *)
Lemma handler_steps (req : request) (st : state) :
  exists o1 st1 calls1,
    uploadStep w (file req) st = (o1, st1, calls1)
    /\ ((fileCache (snd (fst (handler w req st))) = fileCache st1
         /\ exists calls2,
              snd (handler w req st) = (calls1 ++ calls2)%list
              /\ (calls2 = [] \/ exists messages, calls2 = [AnswerRequest messages]))).
Proof.
  unfold handler, tryBlock, bind.
  destruct (uploadStep w (file req) st) as [[o1 st1] calls1] eqn:E1.
  exists o1, st1, calls1. split; [reflexivity|].
  destruct o1 as [x| |]; cbn [fst snd];
    try (split; [reflexivity|]; exists []; rewrite app_nil_r; now auto).
  destruct (resolveContext (question req) (present (file req)) st1)
    as [[o2 st2] calls2] eqn:E2.
  pose proof (resolveContext_fileCache _ _ _ _ _ _ E2) as Hc.
  pose proof (resolveContext_calls _ _ _ _ _ _ E2) as ->.
  destruct o2 as [text| |]; cbn [fst snd];
    try (split; [exact Hc|]; exists []; now auto).
  unfold complete, ret.
  destruct (create w (answerRequest text (question req))); cbn [fst snd];
    (split; [exact Hc|]); eexists; (split; [reflexivity|]); right;
    now exists (answerRequest text (question req)).
Qed.

Lemma serve_fileCache (reqs : list request) :
  forall st, exists added,
    fileCache (snd (serve w reqs st)) = (fileCache st ++ added)%list
    /\ length added <= length (uploads reqs).
Proof.
  induction reqs as [|req reqs IH]; intros st.
  - exists []. cbn. now rewrite app_nil_r.
  - cbn [serve].
    destruct (handler_steps req st) as (o1 & st1 & calls1 & Hu & Hc & _).
    destruct (handler w req st) as [[r st'] calls]. cbn [fst snd] in Hc.
    destruct (IH st') as (added & Ha & Hl).
    destruct (serve w reqs st') as [rs st2]. cbn [snd] in *.
    rewrite Ha, Hc.
    destruct (uploadStep_fileCache _ _ _ _ _ Hu)
      as [->|(f & text & reply & Hf & _ & _ & ->)].
    + exists added. split; [reflexivity|].
      unfold uploads in *. cbn [filter]. destruct (present (file req)); cbn [length]; lia.
    + rewrite ingest_fileCache, <- app_assoc. eexists. split; [reflexivity|].
      unfold uploads in *. cbn [filter]. rewrite Hf. cbn. lia.
Qed.

(** X6.  Requests only ever add to the cache, at its end, and one file at
    most for each request that comes with a file: after any sequence of
    requests the cache is the cache before followed by the files added. *)
Theorem serve_cache_grows (reqs : list request) (st : state) :
  exists added,
    fileCache (snd (serve w reqs st)) = (fileCache st ++ added)%list
    /\ length added <= length (uploads reqs).
Proof. apply serve_fileCache. Qed.

(** X7.  From the initial state, whatever the requests and whatever the
    collaborators do, the active file, when there is one, is an element of
    the cache. *)
Theorem serve_keeps_active_stored (reqs : list request) :
  activeStored (snd (serve w reqs initial)).
Proof. apply serve_activeStored, initial_activeStored. Qed.

End Invariants.

(** ** Questions about the files *)

Section Questions.

Import Js.

(** X8.  Asking for the "second file" while the cache holds a single file
    does not fail: no file is active afterwards, comparison mode is off, and
    the question is answered from the only file there is. *)
Theorem second_file_missing (q : string) (fl : bool) (st : state) (only : cachedFile) :
  fileCache st = [only] ->
  extractFileTopics q = None ->
  includes (toLowerCase q) "first file" = false ->
  includes (toLowerCase q) "second file" = true ->
  resolveContext (Some q) fl st
  = (Value (content only),
     {| fileCache := [only]; activeFile := None; compareMode := false |},
     []).
Proof.
  intros Hc Ht H1 H2.
  rewrite (@resolveContext_switch q fl st Ht). unfold switchFiles.
  rewrite !mentions_includes by discriminate. rewrite H1, H2, Hc.
  unfold currentContent, bind, get, lift, ret. cbn.
  now rewrite andb_false_r.
Qed.

Lemma second_file_missing_witness :
  resolveContext (Some "What does the second file say?") false
    {| fileCache := [Sample.medicine];
       activeFile := Some Sample.medicine;
       compareMode := true |}
  = (Value "Models read scans.",
     {| fileCache := [Sample.medicine]; activeFile := None; compareMode := false |},
     []).
Proof.
  assert (Ht : extractFileTopics "What does the second file say?" = None)
    by (vm_compute; reflexivity).
  exact (second_file_missing "What does the second file say?" false
           {| fileCache := [Sample.medicine];
              activeFile := Some Sample.medicine;
              compareMode := true |}
           Sample.medicine eq_refl Ht eq_refl eq_refl).
Defined.

End Questions.
